(** * E-commerce-2022-server: error middleware and socket rooms

    A shallow embedding of [src/app/middleware/errorHandler.js] and
    [src/app/config/socket.config.js].

    JavaScript values are a small inductive type; an object is the list of
    its own properties in key order.  The Express response
    object [res] and the continuation [next] belong to the framework: every
    call the handlers make on them is recorded, in order, in a trace of
    events.  A handler is a computation in a writer-and-exception monad: it
    yields the trace it produced and either a value or a thrown exception. *)

From Stdlib Require Import ZArith Ascii String List Lia Bool DecimalString.
From stdpp Require Import base strings list gmap.
Import ListNotations.
Open Scope string_scope.
Open Scope list_scope.
Open Scope Z_scope.

Set Warnings "-register-all".

(** ** JavaScript values *)

Module Js.

(** Numbers are integers (status codes); strings are sequences of code
    units below 256. *)
Inductive jsval : Type :=
| JUndefined
| JNull
| JBool (b : bool)
| JNum (n : Z)
| JStr (s : string)
| JObj (props : list (string * jsval)).

(** ToBoolean, as used by [!x] and [x || y]. *)
Definition truthy (v : jsval) : bool :=
  match v with
  | JUndefined | JNull => false
  | JBool b => b
  | JNum n => negb (n =? 0)
  | JStr s => negb (String.eqb s "")
  | JObj _ => true
  end.

(** [a || b] *)
Definition or_else (a b : jsval) : jsval := if truthy a then a else b.

Fixpoint lookup_prop (k : string) (ps : list (string * jsval)) : option jsval :=
  match ps with
  | [] => None
  | (k', v) :: ps' => if String.eqb k k' then Some v else lookup_prop k ps'
  end.

(** [o.k = v] on an object: an existing property keeps its place, a new
    one goes last. *)
Fixpoint set_prop (k : string) (v : jsval) (ps : list (string * jsval))
  : list (string * jsval) :=
  match ps with
  | [] => [(k, v)]
  | (k', v') :: ps' =>
      if String.eqb k k' then (k, v) :: ps' else (k', v') :: set_prop k v ps'
  end.

(** A JavaScript object has each key once. *)
Definition wf_props (ps : list (string * jsval)) : Prop := NoDup (map fst ps).

(** The decimal spelling of an array index. *)
Definition index_key (i : nat) : string :=
  NilEmpty.string_of_uint (Nat.to_uint i).

Fixpoint chars_from (i : nat) (s : string) : list (string * jsval) :=
  match s with
  | EmptyString => []
  | String c s' => (index_key i, JStr (String c EmptyString)) :: chars_from (S i) s'
  end.

(** The own properties of a value, which [Object.keys] walks (the
    mappings it is applied to are plain objects, all of whose properties
    are enumerable).  A string exposes its characters under their indices;
    numbers and booleans have none.  [undefined] and [null] have no
    properties at all: see [get]. *)
Definition own_props (v : jsval) : list (string * jsval) :=
  match v with
  | JObj ps => ps
  | JStr s => chars_from 0 s
  | _ => []
  end.

(** The value a property read yields on a value that has properties: a
    missing property reads as [undefined]. *)
Definition prop (v : jsval) (k : string) : jsval :=
  default JUndefined (lookup_prop k (own_props v)).

Definition is_nullish (v : jsval) : bool :=
  match v with
  | JUndefined | JNull => true
  | _ => false
  end.

End Js.
Export Js.

(** ** Effects: the trace of framework calls, and exceptions *)

Inductive mime : Type := TextHtml | ApplicationJson.

Inductive event : Type :=
| EStatus (code : jsval)          (* res.status(code) *)
| EJson (body : jsval)            (* res.json(body) *)
| ESend (body : jsval)            (* res.send(body) *)
| ERedirect (url : string)        (* res.redirect(url) *)
| ENotAcceptable                  (* res.format found no acceptable type *)
| ENext (arg : option jsval)      (* next() or next(arg) *)
| ELog (line : string)            (* console.log(line) *).

Inductive completion (A : Type) : Type :=
| Normal (a : A)
| Throw (e : jsval).
Arguments Normal {A} a.
Arguments Throw {A} e.

Definition M (A : Type) : Type := (list event * completion A)%type.

#[global] Instance M_ret : MRet M := fun A a => ([], Normal a).

#[global] Instance M_bind : MBind M := fun A B f m =>
  match m with
  | (t, Normal a) => let '(t', c) := f a in (t ++ t', c)
  | (t, Throw e) => (t, Throw e)
  end.

#[global] Instance M_fmap : FMap M := fun A B f m =>
  x ← m; mret (f x).

Definition emit (e : event) : M unit := ([e], Normal tt).
Definition throw {A} (e : jsval) : M A := ([], Throw e).

Definition trace {A} (m : M A) : list event := fst m.
Definition outcome {A} (m : M A) : completion A := snd m.

(** A [TypeError], as the engine raises it. *)
Definition TypeError (msg : string) : jsval :=
  JObj [("name", JStr "TypeError"); ("message", JStr msg)].

(** [v.k]: reading a property of [undefined] or [null] throws; a missing
    property reads as [undefined]. *)
Definition get (v : jsval) (k : string) : M jsval :=
  match v with
  | JUndefined | JNull => throw (TypeError ("Cannot read properties of undefined or null: " +:+ k))
  | _ => mret (prop v k)
  end.

(** [v.k = x] in a module (strict mode): only objects take new properties. *)
Definition put (v : jsval) (k : string) (x : jsval) : M jsval :=
  match v with
  | JObj ps => mret (JObj (set_prop k x ps))
  | JUndefined | JNull => throw (TypeError ("Cannot set properties of undefined or null: " +:+ k))
  | _ => throw (TypeError ("Cannot create property on a primitive: " +:+ k))
  end.

(** [forEach] over a list. *)
Fixpoint for_each {A} (f : A -> M unit) (l : list A) : M unit :=
  match l with
  | [] => mret tt
  | x :: l' => f x;; for_each f l'
  end.

(** ** The request *)

Record request : Type := {
  originalUrl : string;
  (* what req.accepts picks among the types res.format is given *)
  accepts : option mime
}.

(** [res.format({ "text/html": h, "application/json": j })] *)
Definition res_format (req : request) (html json : M unit) : M unit :=
  match accepts req with
  | Some TextHtml => html
  | Some ApplicationJson => json
  | None => emit ENotAcceptable
  end.

(** Modelled from the spec: the constants of the http-status-codes package
    that errorHandler.js imports, [StatusCodes.UNPROCESSABLE_ENTITY] and
    [ReasonPhrases.UNPROCESSABLE_ENTITY]. *)
Definition UNPROCESSABLE_ENTITY : Z := 422.
Definition UNPROCESSABLE_ENTITY_phrase : string := "Unprocessable Entity".

(** ** errorHandler.js *)

(** [new Error(message)]: the engine records the message and captures a
    stack, the header line followed by the frames of the call site. *)
Definition new_Error (message frames : string) : jsval :=
  JObj [("stack", JStr ("Error: " +:+ message +:+ frames));
        ("message", JStr message)].

Definition notFound (frames : string) (req : request) : M unit :=
  let error := new_Error ("Not found - " +:+ originalUrl req) frames in
  emit (EStatus (JNum 404));;
  emit (ENext (Some error));;
  emit (ERedirect "back").

Definition flashValidationErrors (err : jsval) (req : request) : M unit :=
  errors ← get err "errors";
  if negb (truthy errors) then emit (ENext (Some err))
  else
    let errorKeys := map fst (own_props errors) in
    for_each (fun key =>
      emit (EStatus (JNum UNPROCESSABLE_ENTITY));;
      errors ← get err "errors";
      field ← get errors key;
      message ← get field "message";
      emit (EJson (JObj [("status", JStr UNPROCESSABLE_ENTITY_phrase);
                         ("error", message)]))) errorKeys.

Definition productionErrors (err : jsval) (req : request) : M unit :=
  emit (EStatus (JNum 500));;
  emit (EJson (JObj [("error", err)]));;
  emit (ENext None).

(** ** The stack highlighter: [/[a-z_-\d]+.js:\d+:\d+/gi]

    The pattern is a sequence of atoms, each one character or a greedy
    [+] over one character; [exec] is the backtracking matcher anchored at
    the start of its input, answering the length of the match. *)

Module Regex.

Inductive atom : Type :=
| One (p : ascii -> bool)
| Many1 (p : ascii -> bool).

(** [p+] followed by the continuation [k]: one character, then more of
    them if the rest of the pattern can still match, fewer otherwise. *)
Fixpoint many1 (p : ascii -> bool) (k : string -> option nat) (s : string)
  : option nat :=
  match s with
  | String c s' =>
      if p c then
        match many1 p k s' with
        | Some n => Some (S n)
        | None => S <$> k s'
        end
      else None
  | EmptyString => None
  end.

Fixpoint exec (r : list atom) (s : string) {struct r} : option nat :=
  match r with
  | [] => Some 0%nat
  | One p :: r' =>
      match s with
      | String c s' => if p c then S <$> exec r' s' else None
      | EmptyString => None
      end
  | Many1 p :: r' => many1 p (exec r') s
  end.

Definition between (lo hi c : ascii) : bool :=
  (nat_of_ascii lo <=? nat_of_ascii c)%nat && (nat_of_ascii c <=? nat_of_ascii hi)%nat.

Definition char_is (x c : ascii) : bool := Ascii.eqb x c.

(** [\d] *)
Definition digit (c : ascii) : bool := between "0" "9" c.

(** [[a-z_-\d]] under the [i] flag: a letter of either case, an
    underscore, a hyphen (a range cannot end in a class escape, so the
    hyphen stands for itself) or a digit. *)
Definition name_char (c : ascii) : bool :=
  between "a" "z" c || between "A" "Z" c || char_is "_" c || char_is "-" c || digit c.

(** [.]: any character but a line terminator. *)
Definition dot (c : ascii) : bool :=
  negb (char_is "010" c || char_is "013" c).

(** A letter under the [i] flag. *)
Definition letter_i (lower upper c : ascii) : bool := char_is lower c || char_is upper c.

Definition location : list atom :=
  [ Many1 name_char; One dot; One (letter_i "j" "J"); One (letter_i "s" "S");
    One (char_is ":"); Many1 digit; One (char_is ":"); Many1 digit ].

Definition mark_open : string := "<mark>".
Definition mark_close : string := "</mark>".

(** [s.replace(/.../g, "<mark>$&</mark>")], one pass from left to right.
    [inside] counts the characters of the current match still to be
    copied; outside a match the pattern is tried at every position, and a
    match resumes the search right after itself. *)
Fixpoint replace_from (r : list atom) (inside : nat) (s : string) : string :=
  match s with
  | EmptyString => EmptyString
  | String c s' =>
      let copy n :=
        String c (match n with
                  | O => mark_close +:+ replace_from r 0 s'
                  | S _ => replace_from r n s'
                  end) in
      match inside with
      | S n => copy n
      | O =>
          match exec r s with
          | Some (S n) => mark_open +:+ copy n
          | _ => String c (replace_from r 0 s')
          end
      end
  end.

Definition highlight (stack : string) : string := replace_from location 0 stack.

(** A string cut into the characters left as they are and the substrings
    put between markers. *)
Inductive segment : Type :=
| Plain (c : ascii)
| Marked (w : string).

(** The string that was cut. *)
Fixpoint text (segs : list segment) : string :=
  match segs with
  | [] => EmptyString
  | Plain c :: segs' => String c (text segs')
  | Marked w :: segs' => w +:+ text segs'
  end.

(** The string with its markers. *)
Fixpoint render (segs : list segment) : string :=
  match segs with
  | [] => EmptyString
  | Plain c :: segs' => String c (render segs')
  | Marked w :: segs' => mark_open +:+ w +:+ mark_close +:+ render segs'
  end.

Fixpoint all (p : ascii -> bool) (s : string) : bool :=
  match s with
  | EmptyString => true
  | String c s' => p c && all p s'
  end.




End Regex.

(** [v.replace(pattern, "<mark>$&</mark>")]: only a string has the method. *)
Definition replace_location (v : jsval) : M jsval :=
  match v with
  | JStr s => mret (JStr (Regex.highlight s))
  | JUndefined | JNull =>
      throw (TypeError "Cannot read properties of undefined or null: replace")
  | _ => throw (TypeError "err.stack.replace is not a function")
  end.

(** The value of the computation is the error object as the handler leaves
    it, after the assignment to [err.stack]. *)
Definition developmentErrors (err : jsval) (req : request) : M jsval :=
  stack0 ← get err "stack";
  err ← put err "stack" (or_else stack0 (JStr ""));
  message ← get err "message";
  status ← get err "status";
  stack ← get err "stack";
  stackHighlighted ← replace_location stack;
  let errorDetails :=
    JObj [("message", message); ("status", status);
          ("stackHighlighted", stackHighlighted)] in
  status ← get err "status";
  emit (EStatus (or_else status (JNum 500)));;
  res_format req
    (emit (ESend (JObj [("error", errorDetails)])))
    (emit (EJson errorDetails));;
  emit (ENext None);;
  mret err.

(** ** catchErrors

    What a route handler hands back: a plain value or a promise.  A promise
    is described by the state it settles in; the trace of a handler lists
    its calls in the order they happen, up to that settlement. *)

Inductive promise : Type :=
| Pending
| Fulfilled (v : jsval)
| Rejected (e : jsval).

Inductive retval : Type :=
| Value (v : jsval)
| Promise (p : promise).

(** [p.catch(onRejected)] *)
Definition promise_catch (p : promise) (onRejected : jsval -> M jsval) : M promise :=
  match p with
  | Rejected e =>
      match onRejected e with
      | (t, Normal v) => (t, Normal (Fulfilled v))
      | (t, Throw e') => (t, Normal (Rejected e'))
      end
  | _ => mret p
  end.

(** The continuation used as a callback. *)
Definition next (arg : jsval) : M jsval :=
  emit (ENext (Some arg));; mret JUndefined.

Definition catchErrors (fn : request -> M retval) (req : request) : M retval :=
  resp ← fn req;
  match resp with
  | Promise p => Promise <$> promise_catch p next
  | Value _ => mret resp
  end.

(** ** socket.config.js

    [socket.join], [socket.leave] and [socket.id] are the transport's.  The
    handler is written against that interface; what the interface promises
    about membership is part of it. *)

Class Transport (Room Socket : Type) : Type := {
  socket_join : Room -> Socket -> Socket;
  socket_leave : Room -> Socket -> Socket;
  socket_id : Socket -> string;
  in_room : Room -> Socket -> Prop;
  in_room_join : forall g s, in_room g (socket_join g s);
  in_room_leave : forall g s, ~ in_room g (socket_leave g s)
}.

Section SocketServer.
Context {Room Socket : Type} `{Transport Room Socket}.

(** A listener receives the event's argument and the socket. *)
Definition listener : Type := Room -> Socket -> M Socket.

(** [socket.on(name, callback)], three times. *)
Definition SocketServer : list (string * listener) :=
  [ ("joinRoom", fun id socket => mret (socket_join id socket));
    ("outRoom", fun id socket => mret (socket_leave id socket));
    ("disconnect", fun _ socket =>
       emit (ELog (socket_id socket +:+ " disconnected"));; mret socket) ].

(** The transport delivers an event to every listener registered under
    its name, in registration order. *)
Fixpoint deliver (ls : list (string * listener)) (name : string) (arg : Room)
    (socket : Socket) : M Socket :=
  match ls with
  | [] => mret socket
  | (name', callback) :: ls' =>
      if String.eqb name name'
      then socket ← callback arg socket; deliver ls' name arg socket
      else deliver ls' name arg socket
  end.

Definition on_event : string -> Room -> Socket -> M Socket := deliver SocketServer.

End SocketServer.

(** The in-memory transport: a connection is its identifier and the set of
    rooms it is in. *)
Record connection : Type := { conn_id : string; conn_rooms : gset string }.

Definition memory_join (g : string) (s : connection) : connection :=
  {| conn_id := conn_id s; conn_rooms := {[ g ]} ∪ conn_rooms s |}.

Definition memory_leave (g : string) (s : connection) : connection :=
  {| conn_id := conn_id s; conn_rooms := conn_rooms s ∖ {[ g ]} |}.

(** ** What the stages emit

    Names for the parts of a trace that the properties below speak of. *)

(** What the stage emits for one field of the mapping. *)
Definition field_response (field : string * jsval) : list event :=
  [EStatus (JNum 422);
   EJson (JObj [("status", JStr "Unprocessable Entity");
                ("error", prop (snd field) "message")])].

(** [err.stack || ""], when it is a string: the text the highlighter gets. *)
Definition stack_text (err : jsval) : option string :=
  match or_else (prop err "stack") (JStr "") with
  | JStr s => Some s
  | _ => None
  end.

(** The detail object of the Development-Error stage. *)
Definition details_of (err : jsval) (st : string) : jsval :=
  JObj [("message", prop err "message"); ("status", prop err "status");
        ("stackHighlighted", JStr (Regex.highlight st))].

(** The response call the Development-Error stage makes through [res.format]. *)
Definition response_of (req : request) (details : jsval) : list event :=
  match accepts req with
  | Some TextHtml => [ESend (JObj [("error", details)])]
  | Some ApplicationJson => [EJson details]
  | None => [ENotAcceptable]
  end.

(** ** Requests, errors and handlers of the examples *)

Definition html_request : request := {| originalUrl := "/api/products"; accepts := Some TextHtml |}.
Definition json_request : request := {| originalUrl := "/api/products"; accepts := Some ApplicationJson |}.

(** A request that accepts neither of the two types. *)
Definition plain_request : request := {| originalUrl := "/api/products"; accepts := None |}.

(** [{message: "boom", status: 418}] *)
Definition boom : jsval := JObj [("message", JStr "boom"); ("status", JNum 418)].

(** [{errors: {email: {message: "invalid"}, age: {message: "required"}}}] *)
Definition invalid_email_and_age : jsval :=
  JObj [("errors", JObj [("email", JObj [("message", JStr "invalid")]);
                         ("age", JObj [("message", JStr "required")])])].

(** [{errors: {email: "invalid", age: "required"}}], the mapping as the
    claim spells it. *)
Definition flat_email_and_age : jsval :=
  JObj [("errors", JObj [("email", JStr "invalid"); ("age", JStr "required")])].



(** An asynchronous handler that sets a status and then fails. *)
Definition rejecting_handler (req : request) : M retval :=
  emit (EStatus (JNum 200));; mret (Promise (Rejected (JStr "boom"))).

(** A synchronous handler that sets a status and then throws. *)
Definition throwing_handler (req : request) : M retval :=
  emit (EStatus (JNum 200));; throw (JStr "boom").

(** An asynchronous handler that answers and succeeds. *)
Definition answering_handler (req : request) : M retval :=
  emit (EStatus (JNum 200));; emit (EJson (JStr "ok"));;
  mret (Promise (Fulfilled JUndefined)).

(** [{errors: {email: {message: "invalid"}, age: null, name: {message: "short"}}}] *)
Definition invalid_email_null_age : jsval :=
  JObj [("errors", JObj [("email", JObj [("message", JStr "invalid")]);
                         ("age", JNull);
                         ("name", JObj [("message", JStr "short")])])].

(** ** The ErrorHandler class

    [super(message)] builds the error, the constructor adds [statusCode],
    and [Error.captureStackTrace] replaces the stack by the one the engine
    captures at that point, [captured]. *)
Definition ErrorHandler (message : string) (statusCode : jsval)
    (frames captured : string) : M jsval :=
  let this := new_Error message frames in
  this ← put this "statusCode" statusCode;
  put this "stack" (JStr captured).

(** ** What the highlighter wraps *)

(** The shape of a match: a run of class characters, any one character
    that is no line terminator, [js] in either case, and two runs of
    digits, each after a colon. *)
Definition wrapped_shape (m : string) : Prop :=
  exists name c j s line col,
    m = name +:+ String c (String j (String s (String ":" (line +:+ String ":" col)))) /\
    name <> EmptyString /\ Regex.all Regex.name_char name = true /\
    Regex.dot c = true /\
    Regex.letter_i "j" "J" j = true /\ Regex.letter_i "s" "S" s = true /\
    line <> EmptyString /\ Regex.all Regex.digit line = true /\
    col <> EmptyString /\ Regex.all Regex.digit col = true.

(** Whether a string begins with a character of [p]. *)
Definition starts_with (p : ascii -> bool) (s : string) : bool :=
  match s with
  | EmptyString => false
  | String c _ => p c
  end.

(** Whether a value is an object. *)
Definition is_object (v : jsval) : bool :=
  match v with
  | JObj _ => true
  | _ => false
  end.

(** Any character but a colon. *)
Definition not_colon (c : ascii) : bool := negb (Regex.char_is ":" c).

(** The calls the Validation-Error stage makes for a mapping. *)
Definition validation_call (e : event) : Prop :=
  e = EStatus (JNum 422) \/ exists body, e = EJson body.

(** * Properties *)

(** ** Not-Found stage *)

(** C1: the Not-Found stage builds an error whose message is
    "Not found - " followed by the requested path, sets status 404, hands
    the error to the continuation, and only then redirects back to the
    referring page; these are its only calls, in this order. *)
Theorem notFound_forwards_then_redirects (frames : string) (req : request) :
  exists error,
    prop error "message" = JStr ("Not found - " +:+ originalUrl req) /\
    notFound frames req =
      ([EStatus (JNum 404); ENext (Some error); ERedirect "back"], Normal tt).
Proof.
  exists (new_Error ("Not found - " +:+ originalUrl req) frames).
  split; reflexivity.
Qed.

(** ** Production-Error stage *)

(** C5: the Production-Error stage sets status 500, emits as JSON the raw
    error under the key "error", then calls the continuation without an
    argument; for [{message: "boom", status: 418}] the body is
    [{"error": {"message": "boom", "status": 418}}]. *)
Theorem productionErrors_emits_raw_error (err : jsval) (req : request) :
  productionErrors err req =
    ([EStatus (JNum 500); EJson (JObj [("error", err)]); ENext None], Normal tt) /\
  trace (productionErrors boom req) =
    [EStatus (JNum 500);
     EJson (JObj [("error", JObj [("message", JStr "boom"); ("status", JNum 418)])]);
     ENext None].
Proof. split; reflexivity. Qed.

(** ** Validation-Error stage *)

Lemma get_not_nullish (v : jsval) (k : string) :
  is_nullish v = false -> get v k = mret (prop v k).
Proof. destruct v; simpl; intros E; try discriminate E; reflexivity. Qed.

(** C8: an error without a field-validation mapping (its [errors] property
    is missing, or holds a falsy value) is handed unchanged to the
    continuation, and nothing else happens: no response is emitted. *)
Theorem flashValidationErrors_forwards (err : jsval) (req : request) :
  is_nullish err = false ->
  truthy (prop err "errors") = false ->
  flashValidationErrors err req = ([ENext (Some err)], Normal tt).
Proof.
  intros Herr Hfalsy. unfold flashValidationErrors.
  rewrite (get_not_nullish _ _ Herr). cbn.
  rewrite Hfalsy. reflexivity.
Qed.

Lemma flashValidationErrors_forwards_witness :
  flashValidationErrors boom html_request = ([ENext (Some boom)], Normal tt).
Proof.
  apply (flashValidationErrors_forwards boom html_request); reflexivity.
Defined.

(** C10: when the field-validation mapping is present but has no field,
    the Validation-Error stage makes no call at all: it emits no response
    and does not call the continuation. *)
Theorem flashValidationErrors_empty_mapping (err : jsval) (req : request) :
  prop err "errors" = JObj [] ->
  flashValidationErrors err req = ([], Normal tt).
Proof.
  intros Hempty. unfold flashValidationErrors.
  rewrite get_not_nullish by (destruct err; try reflexivity; discriminate Hempty).
  cbn. rewrite Hempty. reflexivity.
Qed.

Lemma flashValidationErrors_empty_mapping_witness :
  flashValidationErrors (JObj [("message", JStr "Validation failed"); ("errors", JObj [])])
    json_request = ([], Normal tt).
Proof.
  apply (flashValidationErrors_empty_mapping
           (JObj [("message", JStr "Validation failed"); ("errors", JObj [])])
           json_request); reflexivity.
Defined.

Lemma lookup_prop_wf (fields : list (string * jsval)) (k : string) (v : jsval) :
  wf_props fields -> In (k, v) fields -> lookup_prop k fields = Some v.
Proof.
  unfold wf_props. induction fields as [|[k' v'] fields IH]; simpl; intros Hnd Hin.
  - contradiction.
  - apply NoDup_cons in Hnd as [Hfresh Hnd].
    destruct Hin as [Heq|Hin].
    + injection Heq as -> ->. rewrite String.eqb_refl. reflexivity.
    + destruct (String.eqb_spec k k') as [->|Hne].
      * exfalso. apply Hfresh. apply list_elem_of_In.
        change k' with (fst (k', v)). apply in_map, Hin.
      * apply IH; assumption.
Qed.

Lemma bind_ret {A B} (a : A) (f : A -> M B) : (mret a ≫= f) = f a.
Proof. unfold mbind, M_bind, mret, M_ret. destruct (f a); reflexivity. Qed.

Lemma for_each_fields (err errors : jsval) (l : list (string * jsval)) :
  get err "errors" = mret errors ->
  is_nullish errors = false ->
  (forall k v, In (k, v) l -> prop errors k = v /\ is_nullish v = false) ->
  for_each (fun key =>
      emit (EStatus (JNum UNPROCESSABLE_ENTITY));;
      errors ← get err "errors";
      field ← get errors key;
      message ← get field "message";
      emit (EJson (JObj [("status", JStr UNPROCESSABLE_ENTITY_phrase);
                         ("error", message)]))) (map fst l)
  = (flat_map field_response l, Normal tt).
Proof.
  intros Herr Herrors. induction l as [|[k v] l IH]; intros Hl.
  - reflexivity.
  - destruct (Hl k v (or_introl eq_refl)) as [Hk Hv].
    cbn [map fst for_each flat_map].
    rewrite IH by (intros k' v' Hin; apply Hl; right; exact Hin).
    rewrite Herr, bind_ret.
    rewrite (get_not_nullish _ _ Herrors), bind_ret, Hk.
    rewrite (get_not_nullish _ _ Hv), bind_ret. reflexivity.
Qed.

(** C2, as the code has it: the mapping holds, under each field, an object
    whose [message] property is the field's message.  For such a mapping
    (each key once, no field [null] or [undefined]) the Validation-Error
    stage emits, field by field in key order, status 422 and the JSON body
    [{status: "Unprocessable Entity", error: <that field's message>}], and
    makes no other call. *)
Theorem flashValidationErrors_emits_per_field
    (err : jsval) (fields : list (string * jsval)) (req : request) :
  prop err "errors" = JObj fields ->
  wf_props fields ->
  (forall k v, In (k, v) fields -> is_nullish v = false) ->
  flashValidationErrors err req = (flat_map field_response fields, Normal tt).
Proof.
  intros Herrors Hwf Hfields. unfold flashValidationErrors.
  assert (Hget : get err "errors" = mret (JObj fields)).
  { rewrite get_not_nullish by (destruct err; try reflexivity; discriminate Herrors).
    rewrite Herrors. reflexivity. }
  rewrite Hget at 1. rewrite bind_ret. cbn [truthy negb own_props].
  rewrite (for_each_fields err (JObj fields) fields); [reflexivity|exact Hget|reflexivity|].
  intros k v Hin. split; [|eauto].
  unfold prop. cbn. rewrite (lookup_prop_wf fields k v Hwf Hin). reflexivity.
Qed.

Lemma flashValidationErrors_emits_per_field_witness :
  flashValidationErrors invalid_email_and_age json_request =
    ([EStatus (JNum 422);
      EJson (JObj [("status", JStr "Unprocessable Entity"); ("error", JStr "invalid")]);
      EStatus (JNum 422);
      EJson (JObj [("status", JStr "Unprocessable Entity"); ("error", JStr "required")])],
     Normal tt).
Proof.
  apply (flashValidationErrors_emits_per_field invalid_email_and_age
           [("email", JObj [("message", JStr "invalid")]);
            ("age", JObj [("message", JStr "required")])] json_request).
  - reflexivity.
  - unfold wf_props. simpl.
    repeat constructor; rewrite ?list_elem_of_In; simpl; intuition discriminate.
  - intros k v [E|[E|[]]]; injection E as <- <-; reflexivity.
Defined.

(** C2 fails as stated: when the mapping holds the messages themselves,
    the two bodies carry [undefined] under "error", not "invalid" and
    "required". *)
Lemma flashValidationErrors_flat_mapping :
  trace (flashValidationErrors flat_email_and_age json_request) =
    [EStatus (JNum 422);
     EJson (JObj [("status", JStr "Unprocessable Entity"); ("error", JUndefined)]);
     EStatus (JNum 422);
     EJson (JObj [("status", JStr "Unprocessable Entity"); ("error", JUndefined)])] /\
  ~ In (EJson (JObj [("status", JStr "Unprocessable Entity"); ("error", JStr "invalid")]))
       (trace (flashValidationErrors flat_email_and_age json_request)).
Proof.
  split; [reflexivity|].
  cbn. intros [E|[E|[E|[E|[]]]]]; discriminate E.
Qed.

(** ** The highlighter *)

Section Strings.

Lemma app_assoc_s (a b c : string) : (a +:+ b) +:+ c = a +:+ (b +:+ c).
Proof.
  induction a as [|x a IH]; [reflexivity|].
  exact (f_equal (String x) IH).
Qed.


Lemma length_app_s (a b : string) :
  String.length (a +:+ b) = (String.length a + String.length b)%nat.
Proof.
  induction a as [|x a IH]; [reflexivity|].
  exact (f_equal S IH).
Qed.

Lemma length_zero_s (a : string) : String.length a = 0%nat -> a = EmptyString.
Proof. destruct a; [reflexivity|discriminate]. Qed.



End Strings.

Section Matcher.
Import Regex.



(** Within a match, the characters are copied and the closing marker
    follows the last one. *)
Lemma replace_inside (r : list atom) (m rest : string) (n : nat) :
  String.length m = S n ->
  replace_from r (S n) (m +:+ rest) = m +:+ mark_close +:+ replace_from r 0 rest.
Proof.
  revert n. induction m as [|c m IH]; intros n Hlen; [discriminate|].
  destruct n as [|n].
  - simpl in Hlen. injection Hlen as Hlen. apply length_zero_s in Hlen as ->.
    reflexivity.
  - simpl in Hlen. injection Hlen as Hlen.
    change (replace_from r (S (S n)) (String c m +:+ rest))
      with (String c (replace_from r (S n) (m +:+ rest))).
    rewrite (IH n Hlen). reflexivity.
Qed.

(** Where the pattern matches, the match goes between markers and the
    search resumes after it. *)
Lemma replace_match (r : list atom) (m rest : string) :
  m <> EmptyString ->
  exec r (m +:+ rest) = Some (String.length m) ->
  replace_from r 0 (m +:+ rest) =
    mark_open +:+ m +:+ mark_close +:+ replace_from r 0 rest.
Proof.
  intros Hm Hexec. destruct m as [|c m]; [contradiction|].
  change (replace_from r 0 (String c m +:+ rest)) with
    (match exec r (String c m +:+ rest) with
     | Some (S n) =>
         mark_open +:+
         String c (match n with
                   | O => mark_close +:+ replace_from r 0 (m +:+ rest)
                   | S _ => replace_from r n (m +:+ rest)
                   end)
     | _ => String c (replace_from r 0 (m +:+ rest))
     end).
  rewrite Hexec. cbn [String.length].
  destruct (String.length m) as [|n] eqn:Hlen.
  - apply length_zero_s in Hlen as ->. reflexivity.
  - rewrite (replace_inside r m rest n Hlen). reflexivity.
Qed.

(** Where it does not, the character is copied. *)
Lemma replace_no_match (r : list atom) (c : ascii) (s : string) :
  exec r (String c s) = None \/ exec r (String c s) = Some 0%nat ->
  replace_from r 0 (String c s) = String c (replace_from r 0 s).
Proof.
  intros Hexec.
  change (replace_from r 0 (String c s)) with
    (match exec r (String c s) with
     | Some (S n) =>
         mark_open +:+
         String c (match n with
                   | O => mark_close +:+ replace_from r 0 s
                   | S _ => replace_from r n s
                   end)
     | _ => String c (replace_from r 0 s)
     end).
  destruct Hexec as [-> | ->]; reflexivity.
Qed.

End Matcher.

Section Greedy.
Import Regex.











End Greedy.

(** ** Development-Error stage *)

Lemma lookup_set_prop_eq (k : string) (v : jsval) (ps : list (string * jsval)) :
  lookup_prop k (set_prop k v ps) = Some v.
Proof.
  induction ps as [|[k' v'] ps IH]; simpl.
  - rewrite String.eqb_refl. reflexivity.
  - destruct (String.eqb_spec k k') as [->|Hne]; simpl.
    + rewrite String.eqb_refl. reflexivity.
    + apply String.eqb_neq in Hne. rewrite Hne. exact IH.
Qed.

Lemma lookup_set_prop_ne (k k' : string) (v : jsval) (ps : list (string * jsval)) :
  k <> k' -> lookup_prop k' (set_prop k v ps) = lookup_prop k' ps.
Proof.
  intros Hne. induction ps as [|[k0 v0] ps IH]; simpl.
  - apply not_eq_sym, String.eqb_neq in Hne. rewrite Hne. reflexivity.
  - destruct (String.eqb_spec k k0) as [->|Hne0]; simpl.
    + apply not_eq_sym, String.eqb_neq in Hne. rewrite Hne. reflexivity.
    + destruct (String.eqb k' k0); [reflexivity|exact IH].
Qed.

(** The whole run of the stage on an error object whose stack, if it has
    one, is a string. *)
Lemma developmentErrors_run (props : list (string * jsval)) (st : string) (req : request) :
  stack_text (JObj props) = Some st ->
  developmentErrors (JObj props) req =
    (EStatus (or_else (prop (JObj props) "status") (JNum 500))
       :: response_of req (details_of (JObj props) st) ++ [ENext None],
     Normal (JObj (set_prop "stack" (JStr st) props))).
Proof.
  unfold stack_text, developmentErrors, details_of, response_of, res_format.
  intros Hst.
  destruct (or_else (prop (JObj props) "stack") (JStr "")) as [| | | |s|] eqn:Hor;
    try discriminate Hst.
  injection Hst as ->.
  rewrite get_not_nullish, bind_ret by reflexivity.
  rewrite Hor. cbn [put]. rewrite bind_ret.
  rewrite !get_not_nullish by reflexivity. rewrite !bind_ret.
  assert (Hstack : prop (JObj (set_prop "stack" (JStr st) props)) "stack" = JStr st).
  { unfold prop. cbn [own_props]. rewrite lookup_set_prop_eq. reflexivity. }
  assert (Hother : forall k, "stack" <> k ->
            prop (JObj (set_prop "stack" (JStr st) props)) k = prop (JObj props) k).
  { intros k Hk. unfold prop. cbn [own_props].
    rewrite lookup_set_prop_ne by exact Hk. reflexivity. }
  rewrite Hstack, !Hother by discriminate.
  cbn [replace_location]. rewrite bind_ret.
  destruct (accepts req) as [[|]|]; reflexivity.
Qed.

(** C3, as the code has it: for an error object whose stack, if any, is a
    string, the body emitted for an HTML-preferring request is the detail
    object [{message, status, stackHighlighted}] nested under the key
    "error", and the body emitted for a JSON-preferring request is the
    detail object itself. *)
Theorem developmentErrors_body_by_format
    (props : list (string * jsval)) (st : string) (req : request) :
  stack_text (JObj props) = Some st ->
  let err := JObj props in
  let details :=
    JObj [("message", prop err "message"); ("status", prop err "status");
          ("stackHighlighted", JStr (Regex.highlight st))] in
  exists code,
    (accepts req = Some TextHtml ->
     trace (developmentErrors err req) =
       [EStatus code; ESend (JObj [("error", details)]); ENext None]) /\
    (accepts req = Some ApplicationJson ->
     trace (developmentErrors err req) =
       [EStatus code; EJson details; ENext None]).
Proof.
  intros Hst err details.
  exists (or_else (prop err "status") (JNum 500)).
  unfold err. rewrite (developmentErrors_run props st req Hst).
  unfold response_of, trace.
  split; intros ->; reflexivity.
Qed.

Lemma developmentErrors_body_by_format_witness :
  exists code,
    (accepts json_request = Some TextHtml ->
     trace (developmentErrors boom json_request) =
       [EStatus code;
        ESend (JObj [("error", JObj [("message", JStr "boom"); ("status", JNum 418);
                                     ("stackHighlighted", JStr "")])]);
        ENext None]) /\
    (accepts json_request = Some ApplicationJson ->
     trace (developmentErrors boom json_request) =
       [EStatus code;
        EJson (JObj [("message", JStr "boom"); ("status", JNum 418);
                     ("stackHighlighted", JStr "")]);
        ENext None]).
Proof.
  apply (developmentErrors_body_by_format
           [("message", JStr "boom"); ("status", JNum 418)] "" json_request).
  reflexivity.
Defined.

(** C3 fails as stated: for a JSON-preferring request the body is the
    detail object itself, which has no "error" key. *)
Lemma developmentErrors_json_body_not_nested :
  exists body,
    trace (developmentErrors boom json_request) =
      [EStatus (JNum 418); EJson body; ENext None] /\
    lookup_prop "error" (own_props body) = None /\
    lookup_prop "message" (own_props body) = Some (JStr "boom").
Proof.
  exists (JObj [("message", JStr "boom"); ("status", JNum 418);
                ("stackHighlighted", JStr "")]).
  repeat split.
Qed.

(** C6, as the code has it: for an error object whose stack, if any, is
    a string, the first call of the Development-Error stage sets the
    status to the error's [status] when it holds one (any truthy value,
    so any non-zero number) and to 500 otherwise; then the body is sent
    when the request accepts HTML, emitted as JSON when it accepts JSON,
    and not emitted at all when it accepts neither; the last call is the
    continuation, without an argument, in each of the three cases. *)
Theorem developmentErrors_status_then_next
    (props : list (string * jsval)) (st : string) (req : request) :
  stack_text (JObj props) = Some st ->
  let err := JObj props in
  exists code details err',
    developmentErrors err req =
      (EStatus code
         :: match accepts req with
            | Some TextHtml => [ESend (JObj [("error", details)])]
            | Some ApplicationJson => [EJson details]
            | None => [ENotAcceptable]
            end
         ++ [ENext None],
       Normal err') /\
    code = (if truthy (prop err "status") then prop err "status" else JNum 500) /\
    (forall n, prop err "status" = JNum n -> n <> 0 -> code = JNum n) /\
    (lookup_prop "status" props = None -> code = JNum 500).
Proof.
  intros Hst err.
  exists (or_else (prop err "status") (JNum 500)),
         (details_of err st),
         (JObj (set_prop "stack" (JStr st) props)).
  split; [exact (developmentErrors_run props st req Hst)|].
  split; [reflexivity|].
  split.
  - intros n Hn Hnz. unfold or_else. rewrite Hn. cbn.
    apply Z.eqb_neq in Hnz. rewrite Hnz. reflexivity.
  - intros Hnone. unfold err, or_else, prop. cbn [own_props].
    rewrite Hnone. reflexivity.
Qed.

Lemma developmentErrors_status_then_next_witness :
  exists code details err',
    developmentErrors boom html_request =
      (EStatus code
         :: match accepts html_request with
            | Some TextHtml => [ESend (JObj [("error", details)])]
            | Some ApplicationJson => [EJson details]
            | None => [ENotAcceptable]
            end
         ++ [ENext None],
       Normal err') /\
    code = (if truthy (prop boom "status") then prop boom "status" else JNum 500) /\
    (forall n, prop boom "status" = JNum n -> n <> 0 -> code = JNum n) /\
    (lookup_prop "status" [("message", JStr "boom"); ("status", JNum 418)] = None ->
     code = JNum 500).
Proof.
  apply (developmentErrors_status_then_next
           [("message", JStr "boom"); ("status", JNum 418)] "" html_request).
  reflexivity.
Defined.

(** C6 fails as stated: for a thrown string the stage throws at its first
    assignment, so it sets no status and does not call the continuation;
    and for a request that accepts neither type it emits no response
    between the status and the continuation. *)
Lemma developmentErrors_no_status_no_response :
  developmentErrors (JStr "boom") html_request =
    ([], Throw (TypeError "Cannot create property on a primitive: stack")) /\
  trace (developmentErrors boom plain_request) =
    [EStatus (JNum 418); ENotAcceptable; ENext None].
Proof. split; reflexivity. Qed.




(** ** catchErrors *)

(** C4, as the code has it: when the wrapped handler returns a promise
    that rejects with [e], the wrapper calls the continuation with [e]
    after the handler's own calls and its promise is fulfilled, so the
    error does not escape; when the handler throws [e] during its
    invocation, the wrapper makes no call of its own and the exception
    propagates to its caller. *)
Theorem catchErrors_rejection_and_throw
    (fn : request -> M retval) (req : request) (t : list event) (e : jsval) :
  (fn req = (t, Normal (Promise (Rejected e))) ->
   catchErrors fn req =
     (t ++ [ENext (Some e)], Normal (Promise (Fulfilled JUndefined)))) /\
  (fn req = (t, Throw e) ->
   catchErrors fn req = (t, Throw e)).
Proof.
  unfold catchErrors. split; intros ->; reflexivity.
Qed.

Lemma catchErrors_rejection_and_throw_witness :
  catchErrors rejecting_handler html_request =
    ([EStatus (JNum 200); ENext (Some (JStr "boom"))],
     Normal (Promise (Fulfilled JUndefined))) /\
  catchErrors throwing_handler html_request =
    ([EStatus (JNum 200)], Throw (JStr "boom")).
Proof.
  split.
  - apply (catchErrors_rejection_and_throw rejecting_handler html_request
             [EStatus (JNum 200)] (JStr "boom")).
    reflexivity.
  - apply (catchErrors_rejection_and_throw throwing_handler html_request
             [EStatus (JNum 200)] (JStr "boom")).
    reflexivity.
Defined.

(** C4 fails as stated: a synchronous throw escapes the wrapper, and the
    continuation is never called. *)
Lemma catchErrors_sync_throw_escapes :
  outcome (catchErrors throwing_handler html_request) = Throw (JStr "boom") /\
  ~ In (ENext (Some (JStr "boom"))) (trace (catchErrors throwing_handler html_request)).
Proof.
  split; [reflexivity|].
  cbn. intros [E|[]]. discriminate E.
Qed.

(** ** Room membership *)

Lemma memory_in_room_join (g : string) (s : connection) :
  g ∈ conn_rooms (memory_join g s).
Proof. apply elem_of_union_l, elem_of_singleton. reflexivity. Qed.

Lemma memory_in_room_leave (g : string) (s : connection) :
  g ∉ conn_rooms (memory_leave g s).
Proof.
  intros Hin. apply elem_of_difference in Hin as [_ Hout].
  apply Hout, elem_of_singleton. reflexivity.
Qed.

#[global] Instance memory_transport : Transport string connection := {|
  socket_join := memory_join;
  socket_leave := memory_leave;
  socket_id := conn_id;
  in_room g s := g ∈ conn_rooms s;
  in_room_join := memory_in_room_join;
  in_room_leave := memory_in_room_leave
|}.

(** C9: over any transport, a joinRoom(g) event leaves the connection a
    member of g, and an outRoom(g) event that follows leaves it outside g;
    neither produces a call or an exception. *)
Theorem joinRoom_then_outRoom
    {Room Socket : Type} {T : Transport Room Socket} (g : Room) (s : Socket) :
  exists s1 s2,
    on_event "joinRoom" g s = ([], Normal s1) /\ in_room g s1 /\
    on_event "outRoom" g s1 = ([], Normal s2) /\ ~ in_room g s2.
Proof.
  exists (socket_join g s), (socket_leave g (socket_join g s)).
  repeat split.
  - apply in_room_join.
  - apply in_room_leave.
Qed.

Lemma joinRoom_then_outRoom_witness :
  let s := {| conn_id := "c1"; conn_rooms := {[ "lobby" ]} |} in
  exists s1 s2,
    on_event "joinRoom" "order-42" s = ([], Normal s1) /\ "order-42" ∈ conn_rooms s1 /\
    on_event "outRoom" "order-42" s1 = ([], Normal s2) /\ "order-42" ∉ conn_rooms s2.
Proof.
  intros s. apply (joinRoom_then_outRoom (T := memory_transport) "order-42" s).
Defined.

(** * Further properties of the handlers *)

Lemma bind_throw {A B} (e : jsval) (f : A -> M B) : (throw e ≫= f) = throw e.
Proof. reflexivity. Qed.

(** The calls of a sequence: those of its first part, then, if that part
    completes, those of the rest. *)
Lemma bind_trace {A B} (m : M A) (f : A -> M B) :
  trace (m ≫= f) =
    trace m ++ match outcome m with
               | Normal a => trace (f a)
               | Throw _ => []
               end.
Proof.
  destruct m as [t [a|e]]; unfold trace, outcome; cbn.
  - destruct (f a); reflexivity.
  - rewrite app_nil_r. reflexivity.
Qed.

(** ** catchErrors *)

(** X1: a handler whose promise does not reject, or that returns a plain
    value, goes through the wrapper untouched: same calls, same result. *)
Theorem catchErrors_transparent
    (fn : request -> M retval) (req : request) (t : list event) (r : retval) :
  fn req = (t, Normal r) ->
  (forall e, r <> Promise (Rejected e)) ->
  catchErrors fn req = (t, Normal r).
Proof.
  intros Hfn Hr. unfold catchErrors. rewrite Hfn.
  destruct r as [v|[|v|e]]; cbn; rewrite ?app_nil_r; try reflexivity.
  exfalso. exact (Hr e eq_refl).
Qed.

Lemma catchErrors_transparent_witness :
  catchErrors answering_handler html_request =
    ([EStatus (JNum 200); EJson (JStr "ok")], Normal (Promise (Fulfilled JUndefined))).
Proof.
  apply (catchErrors_transparent answering_handler html_request
           [EStatus (JNum 200); EJson (JStr "ok")] (Promise (Fulfilled JUndefined))).
  - reflexivity.
  - intros e E. discriminate E.
Defined.

Lemma catchErrors_result (fn : request -> M retval) (req : request) (e : jsval) :
  snd (catchErrors fn req) <> Normal (Promise (Rejected e)).
Proof.
  unfold catchErrors. destruct (fn req) as [t [[v|[|v|e']]|e']]; cbn; discriminate.
Qed.

(** X2: the wrapper never hands back a rejected promise, whatever the
    handler does: no rejection is left for the caller to handle. *)
Theorem catchErrors_never_rejected
    (fn : request -> M retval) (req : request) (e : jsval) :
  outcome (catchErrors fn req) <> Normal (Promise (Rejected e)).
Proof. exact (catchErrors_result fn req e). Qed.

(** X3: wrapping a handler twice is the same as wrapping it once; the
    continuation is not called a second time. *)
Theorem catchErrors_idempotent (fn : request -> M retval) (req : request) :
  catchErrors (catchErrors fn) req = catchErrors fn req.
Proof.
  unfold catchErrors at 1.
  destruct (catchErrors fn req) as [t [r|e]] eqn:Hwrapped; [|reflexivity].
  destruct r as [v|[|v|e]]; cbn; rewrite ?app_nil_r; try reflexivity.
  exfalso. apply (catchErrors_result fn req e).
  rewrite Hwrapped. reflexivity.
Qed.

(** ** Validation-Error stage *)

Lemma for_each_app {A} (f : A -> M unit) (l1 l2 : list A) :
  for_each f (l1 ++ l2) = (for_each f l1;; for_each f l2).
Proof.
  induction l1 as [|x l1 IH]; cbn [for_each app].
  - rewrite bind_ret. reflexivity.
  - rewrite IH. destruct (f x) as [t [[]|e]]; [|reflexivity].
    unfold mbind, M_bind.
    destruct (for_each f l1) as [t1 [[]|e1]]; [|reflexivity].
    destruct (for_each f l2) as [t2 c2]. rewrite app_assoc. reflexivity.
Qed.

(** X4: when the mapping holds [null] or [undefined] under a field, the
    stage answers the fields before it, sets status 422 once more, and
    throws a TypeError; the fields after it get no answer and the
    continuation is not called. *)
Theorem flashValidationErrors_nullish_field
    (err : jsval) (before after : list (string * jsval))
    (k : string) (v : jsval) (req : request) :
  prop err "errors" = JObj (before ++ (k, v) :: after) ->
  wf_props (before ++ (k, v) :: after) ->
  (forall k' v', In (k', v') before -> is_nullish v' = false) ->
  is_nullish v = true ->
  flashValidationErrors err req =
    (flat_map field_response before ++ [EStatus (JNum 422)],
     Throw (TypeError "Cannot read properties of undefined or null: message")).
Proof.
  intros Herrors Hwf Hbefore Hv. unfold flashValidationErrors.
  remember (before ++ (k, v) :: after) as fields eqn:Hfields.
  assert (Hget : get err "errors" = mret (JObj fields)).
  { rewrite get_not_nullish by (destruct err; try reflexivity; discriminate Herrors).
    rewrite Herrors. reflexivity. }
  assert (Hlookup : forall k' v', In (k', v') fields -> prop (JObj fields) k' = v').
  { intros k' v' Hin. unfold prop. cbn [own_props].
    rewrite (lookup_prop_wf fields k' v' Hwf Hin). reflexivity. }
  rewrite Hget at 1. rewrite bind_ret. cbn [truthy negb own_props].
  assert (Hin_before : forall k' v', In (k', v') before -> In (k', v') fields).
  { intros k' v' Hin. rewrite Hfields. apply in_or_app. left. exact Hin. }
  assert (Hin_field : In (k, v) fields).
  { rewrite Hfields. apply in_or_app. right. left. reflexivity. }
  rewrite Hfields at 1. rewrite map_app, for_each_app.
  rewrite (for_each_fields err (JObj fields) before Hget eq_refl).
  2:{ intros k' v' Hin. split; [|eauto]. apply Hlookup, Hin_before, Hin. }
  cbn [map fst for_each].
  rewrite Hget, bind_ret. rewrite get_not_nullish, bind_ret by reflexivity.
  rewrite (Hlookup k v Hin_field).
  destruct v; try discriminate Hv; reflexivity.
Qed.

Lemma flashValidationErrors_nullish_field_witness :
  flashValidationErrors invalid_email_null_age json_request =
    ([EStatus (JNum 422);
      EJson (JObj [("status", JStr "Unprocessable Entity"); ("error", JStr "invalid")]);
      EStatus (JNum 422)],
     Throw (TypeError "Cannot read properties of undefined or null: message")).
Proof.
  apply (flashValidationErrors_nullish_field invalid_email_null_age
           [("email", JObj [("message", JStr "invalid")])]
           [("name", JObj [("message", JStr "short")])]
           "age" JNull json_request).
  - reflexivity.
  - unfold wf_props. simpl.
    repeat constructor; rewrite ?list_elem_of_In; simpl; intuition discriminate.
  - intros k' v' [E|[]]; injection E as <- <-; reflexivity.
  - reflexivity.
Defined.

Lemma for_each_validation_calls (err errors : jsval) (keys : list string) :
  get err "errors" = mret errors ->
  is_nullish errors = false ->
  forall e,
    In e (trace (for_each (fun key =>
            emit (EStatus (JNum UNPROCESSABLE_ENTITY));;
            errors ← get err "errors";
            field ← get errors key;
            message ← get field "message";
            emit (EJson (JObj [("status", JStr UNPROCESSABLE_ENTITY_phrase);
                               ("error", message)]))) keys)) ->
    validation_call e.
Proof.
  intros Herr Herrors. induction keys as [|key keys IH]; intros e Hin.
  - destruct Hin.
  - cbn [for_each] in Hin. rewrite bind_trace in Hin.
    match type of Hin with
    | In _ (trace ?body ++ _) =>
        assert (Hbody :
          (exists e0, body = ([EStatus (JNum 422)], Throw e0)) \/
          (exists b, body = ([EStatus (JNum 422); EJson b], Normal tt)))
    end.
    { rewrite Herr, bind_ret, (get_not_nullish _ _ Herrors), bind_ret.
      destruct (is_nullish (prop errors key)) eqn:Hfield.
      - left. destruct (prop errors key); try discriminate Hfield;
          eexists; reflexivity.
      - right. rewrite (get_not_nullish _ _ Hfield), bind_ret.
        eexists. reflexivity. }
    destruct Hbody as [[e0 Hbody]|[b Hbody]]; rewrite Hbody in Hin;
      cbn [trace outcome fst snd app] in Hin.
    + destruct Hin as [<-|[]]. left. reflexivity.
    + destruct Hin as [<-|[<-|Hin]].
      * left. reflexivity.
      * right. eexists. reflexivity.
      * apply IH, Hin.
Qed.

(** X5: once the error carries a mapping (a truthy [errors]), the stage
    only ever sets status 422 and emits JSON bodies: it never calls the
    continuation, never redirects, whether it completes or throws. *)
Theorem flashValidationErrors_never_forwards_mapping
    (err : jsval) (req : request) (e : event) :
  truthy (prop err "errors") = true ->
  In e (trace (flashValidationErrors err req)) ->
  validation_call e.
Proof.
  intros Htruthy. unfold flashValidationErrors.
  assert (Herr : is_nullish err = false).
  { destruct err; try reflexivity; discriminate Htruthy. }
  assert (Hget : get err "errors" = mret (prop err "errors")).
  { apply get_not_nullish, Herr. }
  rewrite Hget at 1. rewrite bind_ret, Htruthy. cbn [negb].
  apply (for_each_validation_calls err (prop err "errors")); [exact Hget|].
  destruct (prop err "errors"); try reflexivity; discriminate Htruthy.
Qed.

Lemma flashValidationErrors_never_forwards_mapping_witness :
  validation_call (EStatus (JNum 422)).
Proof.
  apply (flashValidationErrors_never_forwards_mapping
           invalid_email_null_age json_request (EStatus (JNum 422))).
  - reflexivity.
  - left. reflexivity.
Defined.

(** ** Development-Error stage *)

(** X6: an error that is no object (a thrown string or number, say) makes
    the stage throw a TypeError at its first assignment, before any call:
    no status, no response, no continuation. *)
Theorem developmentErrors_primitive_error (err : jsval) (req : request) :
  is_object err = false ->
  exists e, developmentErrors err req = ([], Throw e).
Proof.
  intros Hobj. unfold developmentErrors.
  destruct err as [| |b|n|s|props]; try discriminate Hobj;
    try (eexists; reflexivity).
  all: rewrite get_not_nullish, bind_ret by reflexivity;
    eexists; reflexivity.
Qed.

Lemma developmentErrors_primitive_error_witness :
  exists e, developmentErrors (JStr "boom") html_request = ([], Throw e).
Proof.
  apply (developmentErrors_primitive_error (JStr "boom") html_request).
  reflexivity.
Defined.

(** X7: an error object whose stack is a truthy value other than a string
    makes the stage throw a TypeError before any call. *)
Theorem developmentErrors_stack_not_text
    (props : list (string * jsval)) (req : request) :
  stack_text (JObj props) = None ->
  developmentErrors (JObj props) req =
    ([], Throw (TypeError "err.stack.replace is not a function")).
Proof.
  unfold stack_text, developmentErrors. intros Hst.
  rewrite get_not_nullish, bind_ret by reflexivity.
  set (stack := or_else (prop (JObj props) "stack") (JStr "")) in *.
  cbn [put]. rewrite bind_ret.
  rewrite !get_not_nullish by reflexivity. rewrite !bind_ret.
  assert (Hstack : prop (JObj (set_prop "stack" stack props)) "stack" = stack).
  { unfold prop. cbn [own_props]. rewrite lookup_set_prop_eq. reflexivity. }
  rewrite Hstack.
  assert (Htruthy : truthy stack = true).
  { unfold stack, or_else in *.
    destruct (truthy (prop (JObj props) "stack")) eqn:E; [exact E|discriminate Hst]. }
  destruct stack; try discriminate Hst; try discriminate Htruthy; reflexivity.
Qed.

Lemma developmentErrors_stack_not_text_witness :
  developmentErrors (JObj [("message", JStr "boom"); ("stack", JNum 7)]) html_request =
    ([], Throw (TypeError "err.stack.replace is not a function")).
Proof.
  apply (developmentErrors_stack_not_text
           [("message", JStr "boom"); ("stack", JNum 7)] html_request).
  reflexivity.
Defined.

Lemma set_prop_same (k : string) (v : jsval) (ps : list (string * jsval)) :
  lookup_prop k ps = Some v -> set_prop k v ps = ps.
Proof.
  induction ps as [|[k' v'] ps IH]; simpl; [discriminate|].
  destruct (String.eqb_spec k k') as [->|Hne].
  - intros E. injection E as ->. reflexivity.
  - intros E. rewrite (IH E). reflexivity.
Qed.

(** X8: the stage changes the error object in one way only: afterwards
    its stack is the text that was highlighted (the empty string when
    there was none), every other property reads as before, and an error
    that came with a string stack is left exactly as it was. *)
Theorem developmentErrors_defaults_stack
    (props : list (string * jsval)) (st : string) (req : request) :
  stack_text (JObj props) = Some st ->
  exists err',
    outcome (developmentErrors (JObj props) req) = Normal err' /\
    prop err' "stack" = JStr st /\
    (forall k, k <> "stack" -> prop err' k = prop (JObj props) k) /\
    (lookup_prop "stack" props = Some (JStr st) -> err' = JObj props).
Proof.
  intros Hst. exists (JObj (set_prop "stack" (JStr st) props)).
  rewrite (developmentErrors_run props st req Hst).
  split; [reflexivity|]. split; [|split].
  - unfold prop. cbn [own_props]. rewrite lookup_set_prop_eq. reflexivity.
  - intros k Hk. unfold prop. cbn [own_props].
    rewrite lookup_set_prop_ne by (apply not_eq_sym, Hk). reflexivity.
  - intros Hlookup. rewrite (set_prop_same _ _ _ Hlookup). reflexivity.
Qed.

Lemma developmentErrors_defaults_stack_witness :
  exists err',
    outcome (developmentErrors boom html_request) = Normal err' /\
    prop err' "stack" = JStr "" /\
    (forall k, k <> "stack" -> prop err' k = prop boom k) /\
    (lookup_prop "stack" [("message", JStr "boom"); ("status", JNum 418)] = Some (JStr "") ->
     err' = boom).
Proof.
  apply (developmentErrors_defaults_stack
           [("message", JStr "boom"); ("status", JNum 418)] "" html_request).
  reflexivity.
Defined.

(** ** ErrorHandler *)

(** X9: the status code given to [new ErrorHandler(message, statusCode)]
    is stored under [statusCode], which no stage reads: the
    Development-Error stage answers such an error with status 500 and
    reports its [status] as undefined, whatever the code was. *)
Theorem ErrorHandler_statusCode_ignored
    (message : string) (statusCode : jsval) (frames captured : string) (req : request) :
  exists err,
    ErrorHandler message statusCode frames captured = mret err /\
    prop err "statusCode" = statusCode /\
    trace (developmentErrors err req) =
      EStatus (JNum 500)
        :: response_of req
             (JObj [("message", JStr message); ("status", JUndefined);
                    ("stackHighlighted", JStr (Regex.highlight captured))])
        ++ [ENext None].
Proof.
  exists (JObj [("stack", JStr captured); ("message", JStr message);
                ("statusCode", statusCode)]).
  split; [reflexivity|]. split; [reflexivity|].
  rewrite (developmentErrors_run _ captured req); [reflexivity|].
  unfold stack_text, or_else, prop. cbn.
  destruct (String.eqb captured ""%string) eqn:E; [|reflexivity].
  apply String.eqb_eq in E. rewrite E. reflexivity.
Qed.

(** ** From the Not-Found stage to the renderers *)

(** X10: the error the Not-Found stage forwards has no [errors] and no
    [status]: the Validation-Error stage hands it on unchanged, and the
    Development-Error stage then sets status 500, after the 404 of the
    Not-Found stage, with the message "Not found - <path>" in the detail
    object. *)
Theorem notFound_error_rendered_as_500
    (frames : string) (req : request) (error : jsval) :
  In (ENext (Some error)) (trace (notFound frames req)) ->
  flashValidationErrors error req = ([ENext (Some error)], Normal tt) /\
  exists highlighted,
    trace (developmentErrors error req) =
      EStatus (JNum 500)
        :: response_of req
             (JObj [("message", JStr ("Not found - " +:+ originalUrl req));
                    ("status", JUndefined);
                    ("stackHighlighted", JStr highlighted)])
        ++ [ENext None].
Proof.
  intros Hin. cbn in Hin.
  destruct Hin as [E|[E|[E|[]]]]; try discriminate E.
  injection E as <-. split; [reflexivity|].
  set (stack := "Error: " +:+ ("Not found - " +:+ originalUrl req) +:+ frames).
  exists (Regex.highlight stack).
  unfold new_Error. fold stack.
  rewrite (developmentErrors_run _ stack req); [reflexivity|].
  reflexivity.
Qed.

Lemma notFound_error_rendered_as_500_witness :
  flashValidationErrors (new_Error "Not found - /api/products" "") html_request =
    ([ENext (Some (new_Error "Not found - /api/products" ""))], Normal tt) /\
  exists highlighted,
    trace (developmentErrors (new_Error "Not found - /api/products" "") html_request) =
      EStatus (JNum 500)
        :: response_of html_request
             (JObj [("message", JStr "Not found - /api/products");
                    ("status", JUndefined);
                    ("stackHighlighted", JStr highlighted)])
        ++ [ENext None].
Proof.
  apply (notFound_error_rendered_as_500 "" html_request
           (new_Error "Not found - /api/products" "")).
  right. left. reflexivity.
Defined.

(** ** What the highlighter wraps *)

Section Wrapped.
Import Regex.

(** A match of [p+] is a run of [p]-characters followed by a match of the
    rest of the pattern. *)
Lemma many1_inv (p : ascii -> bool) (k : string -> option nat) (s : string) (n : nat) :
  many1 p k s = Some n ->
  exists name rest n',
    s = name +:+ rest /\ name <> EmptyString /\ all p name = true /\
    k rest = Some n' /\ n = (String.length name + n')%nat.
Proof.
  revert n. induction s as [|c s IH]; intros n Hn; [discriminate Hn|].
  simpl in Hn. destruct (p c) eqn:Hc; [|discriminate Hn].
  destruct (many1 p k s) as [n1|] eqn:Hmany.
  - injection Hn as <-.
    destruct (IH n1 eq_refl) as (name & rest & n' & -> & _ & Hall & Hk & ->).
    exists (String c name), rest, n'. repeat split; try assumption.
    + discriminate.
    + simpl. rewrite Hc. exact Hall.
  - destruct (k s) as [n0|] eqn:Hk; [|discriminate Hn].
    injection Hn as <-.
    exists (String c EmptyString), s, n0. repeat split; try assumption.
    + discriminate.
    + simpl. rewrite Hc. reflexivity.
Qed.

(** The last [p+] of a pattern takes the whole run: what follows does not
    begin with a [p]-character. *)
Lemma many1_last_inv (p : ascii -> bool) (s : string) (n : nat) :
  many1 p (exec []) s = Some n ->
  exists name rest,
    s = name +:+ rest /\ name <> EmptyString /\ all p name = true /\
    n = String.length name /\ starts_with p rest = false.
Proof.
  revert n. induction s as [|c s IH]; intros n Hn; [discriminate Hn|].
  change (many1 p (exec []) (String c s)) with
    (if p c then
       match many1 p (exec []) s with
       | Some n => Some (S n)
       | None => S <$> exec [] s
       end
     else None) in Hn.
  destruct (p c) eqn:Hc; [|discriminate Hn].
  destruct (many1 p (exec []) s) as [n1|] eqn:Hmany.
  - injection Hn as <-.
    destruct (IH n1 eq_refl) as (name & rest & -> & _ & Hall & -> & Hrest).
    exists (String c name), rest. repeat split; try assumption.
    + discriminate.
    + simpl. rewrite Hc. exact Hall.
  - change (Some 1%nat = Some n) in Hn. injection Hn as <-.
    exists (String c EmptyString), s. repeat split.
    + discriminate.
    + simpl. rewrite Hc. reflexivity.
    + destruct s as [|c' s]; [reflexivity|].
      change (many1 p (exec []) (String c' s)) with
        (if p c' then
           match many1 p (exec []) s with
           | Some n => Some (S n)
           | None => S <$> exec [] s
           end
         else None) in Hmany.
      simpl. destruct (p c'); [|reflexivity].
      destruct (many1 p (exec []) s); discriminate Hmany.
Qed.

Lemma exec_one_inv (p : ascii -> bool) (r : list atom) (s : string) (n : nat) :
  exec (One p :: r) s = Some n ->
  exists c s' n', s = String c s' /\ p c = true /\ exec r s' = Some n' /\ n = S n'.
Proof.
  destruct s as [|c s]; simpl; [discriminate|].
  destruct (p c) eqn:Hc; [|discriminate].
  destruct (exec r s) as [n'|] eqn:Hr; [|discriminate].
  intros E. injection E as <-. exists c, s, n'.
  split; [reflexivity|]. split; [exact Hc|]. split; [exact Hr|reflexivity].
Qed.

(** A match of the pattern has the shape of [wrapped_shape] and is not
    followed by a digit. *)
Lemma exec_location_inv (s : string) (n : nat) :
  exec location s = Some n ->
  exists m rest,
    s = m +:+ rest /\ String.length m = n /\ wrapped_shape m /\
    starts_with digit rest = false.
Proof.
  intros Hexec.
  apply (many1_inv name_char
           (exec [One dot; One (letter_i "j" "J"); One (letter_i "s" "S");
                  One (char_is ":"); Many1 digit; One (char_is ":"); Many1 digit]))
    in Hexec as (name & r1 & n1 & -> & Hname & Hnames & Hexec & ->).
  apply (exec_one_inv dot
           [One (letter_i "j" "J"); One (letter_i "s" "S");
            One (char_is ":"); Many1 digit; One (char_is ":"); Many1 digit])
    in Hexec as (c & r2 & n2 & -> & Hc & Hexec & ->).
  apply (exec_one_inv (letter_i "j" "J")
           [One (letter_i "s" "S");
            One (char_is ":"); Many1 digit; One (char_is ":"); Many1 digit])
    in Hexec as (j & r3 & n3 & -> & Hj & Hexec & ->).
  apply (exec_one_inv (letter_i "s" "S")
           [One (char_is ":"); Many1 digit; One (char_is ":"); Many1 digit])
    in Hexec as (s0 & r4 & n4 & -> & Hs & Hexec & ->).
  apply (exec_one_inv (char_is ":") [Many1 digit; One (char_is ":"); Many1 digit])
    in Hexec as (colon1 & r5 & n5 & -> & Hcolon1 & Hexec & ->).
  apply Ascii.eqb_eq in Hcolon1 as <-.
  apply (many1_inv digit (exec [One (char_is ":"); Many1 digit]))
    in Hexec as (line & r6 & n6 & -> & Hline & Hlines & Hexec & ->).
  apply (exec_one_inv (char_is ":") [Many1 digit])
    in Hexec as (colon2 & r7 & n7 & -> & Hcolon2 & Hexec & ->).
  apply Ascii.eqb_eq in Hcolon2 as <-.
  apply (many1_last_inv digit) in Hexec as (col & rest & -> & Hcol & Hcols & -> & Hrest).
  exists (name +:+ String c (String j (String s0 (String ":" (line +:+ String ":" col))))),
         rest.
  split; [|split; [|split]].
  - rewrite app_assoc_s.
    change (String c (String j (String s0 (String ":" (line +:+ String ":" col)))) +:+ rest)
      with (String c (String j (String s0 (String ":" ((line +:+ String ":" col) +:+ rest))))).
    rewrite (app_assoc_s line (String ":" col) rest). reflexivity.
  - rewrite !length_app_s. cbn [String.length]. rewrite length_app_s.
    cbn [String.length]. lia.
  - exists name, c, j, s0, line, col. repeat split; assumption.
  - exact Hrest.
Qed.

(** The segments of a highlighted stack, with what holds of each marked
    one. *)
Lemma highlight_marks (st : string) :
  exists segs,
    highlight st = render segs /\
    text segs = st /\
    forall before m after,
      segs = before ++ Marked m :: after ->
      wrapped_shape m /\ starts_with digit (text after) = false.
Proof.
  unfold highlight.
  assert (H : forall bound st, (String.length st <= bound)%nat ->
    exists segs,
      replace_from location 0 st = render segs /\
      text segs = st /\
      forall before m after,
        segs = before ++ Marked m :: after ->
        wrapped_shape m /\ starts_with digit (text after) = false).
  { clear st. induction bound as [|bound IH]; intros st Hlen.
    - apply Nat.le_0_r, length_zero_s in Hlen as ->.
      exists []. repeat split; destruct before; discriminate.
    - destruct st as [|c s]; [apply IH; simpl; lia|].
      simpl in Hlen.
      assert (Hplain :
        replace_from location 0 (String c s) = String c (replace_from location 0 s) ->
        exists segs,
          replace_from location 0 (String c s) = render segs /\
          text segs = String c s /\
          forall before m after,
            segs = before ++ Marked m :: after ->
            wrapped_shape m /\ starts_with digit (text after) = false).
      { intros Hcopy.
        destruct (IH s) as (segs & Hrender & Htext & Hmarks); [lia|].
        exists (Plain c :: segs). split; [|split].
        - rewrite Hcopy. cbn [render]. rewrite Hrender. reflexivity.
        - cbn [text]. rewrite Htext. reflexivity.
        - intros [|seg before] m after E; [discriminate E|].
          injection E as _ E. exact (Hmarks before m after E). }
      destruct (exec location (String c s)) as [[|k]|] eqn:Hexec.
      + apply Hplain, replace_no_match. right. exact Hexec.
      + destruct (exec_location_inv _ _ Hexec) as (m & rest & Hcut & Hm & Hshape & Hrest).
        assert (Hbound : (String.length rest <= bound)%nat).
        { apply (f_equal String.length) in Hcut. rewrite length_app_s in Hcut.
          simpl in Hcut. lia. }
        destruct (IH rest Hbound) as (segs & Hrender & Htext & Hmarks).
        rewrite Hcut in Hexec |- *.
        exists (Marked m :: segs). split; [|split].
        * rewrite replace_match.
          -- cbn [render]. rewrite Hrender. reflexivity.
          -- intros ->. discriminate Hm.
          -- rewrite Hm. exact Hexec.
        * cbn [text]. rewrite Htext. reflexivity.
        * intros [|seg before] m' after E.
          -- injection E as <- <-. rewrite Htext. split; assumption.
          -- injection E as _ E. exact (Hmarks before m' after E).
      + apply Hplain, replace_no_match. left. exact Hexec. }
  exact (H (String.length st) st (Nat.le_refl _)).
Qed.

(** X11: the highlighter only inserts markers, and every substring it
    wraps is a run of class characters, one character that is no line
    terminator (the dot of the pattern, unescaped), [js] in either case,
    a colon, digits, a colon, digits; the character after a wrapped
    substring is never a digit, so no column number is cut short. *)
Theorem highlight_wraps_pattern_matches (st : string) :
  exists segs,
    highlight st = render segs /\
    text segs = st /\
    forall before m after,
      segs = before ++ Marked m :: after ->
      wrapped_shape m /\ starts_with digit (text after) = false.
Proof. exact (highlight_marks st). Qed.

Lemma all_app (p : ascii -> bool) (a b : string) :
  all p (a +:+ b) = all p a && all p b.
Proof.
  induction a as [|c a IH]; [reflexivity|].
  change (all p (String c a +:+ b)) with (p c && all p (a +:+ b)).
  rewrite IH. simpl. rewrite andb_assoc. reflexivity.
Qed.

Lemma render_unmarked (segs : list segment) :
  (forall before m after, segs <> before ++ Marked m :: after) ->
  render segs = text segs.
Proof.
  induction segs as [|[c|m] segs IH]; intros Hnone.
  - reflexivity.
  - cbn [render text]. rewrite IH; [reflexivity|].
    intros before m after E. apply (Hnone (Plain c :: before) m after).
    rewrite E. reflexivity.
  - exfalso. exact (Hnone [] m segs eq_refl).
Qed.

(** X12: a stack without a colon holds nothing to wrap and comes back
    unchanged. *)
Theorem highlight_without_colon (st : string) :
  all not_colon st = true -> highlight st = st.
Proof.
  intros Hfree.
  destruct (highlight_marks st) as (segs & -> & <- & Hmarks).
  apply render_unmarked. intros before m after ->.
  destruct (Hmarks before m after eq_refl)
    as [(name & c & j & s & line & col & -> & _) _].
  assert (Htext : forall a b, text (a ++ b) = text a +:+ text b).
  { intros a b. induction a as [|[c'|m'] a IH]; cbn [text app].
    - reflexivity.
    - rewrite IH. reflexivity.
    - rewrite IH, app_assoc_s. reflexivity. }
  rewrite Htext in Hfree. cbn [text] in Hfree.
  rewrite !all_app in Hfree. cbn [all] in Hfree.
  change (not_colon ":") with false in Hfree. cbn [andb] in Hfree.
  rewrite ?andb_false_r in Hfree. discriminate Hfree.
Qed.

Lemma highlight_without_colon_witness :
  highlight "Error boom, no frames" = "Error boom, no frames".
Proof.
  apply (highlight_without_colon "Error boom, no frames"). reflexivity.
Defined.

End Wrapped.

(** ** Socket events *)

(** X13: of all event names only joinRoom and outRoom change the socket;
    disconnect logs the line "<id> disconnected" and leaves the rooms as
    they are, and any other name reaches no listener. *)
Theorem on_event_other_names
    {Room Socket : Type} {T : Transport Room Socket}
    (name : string) (arg : Room) (s : Socket) :
  name <> "joinRoom" -> name <> "outRoom" ->
  on_event name arg s =
    (if String.eqb name "disconnect"
     then [ELog (socket_id s +:+ " disconnected")] else [],
     Normal s).
Proof.
  intros Hjoin Hout. unfold on_event, SocketServer. cbn [deliver].
  apply String.eqb_neq in Hjoin, Hout. rewrite Hjoin, Hout.
  destruct (String.eqb name "disconnect"); reflexivity.
Qed.

Lemma on_event_other_names_witness :
  let s := {| conn_id := "c1"; conn_rooms := {[ "lobby" ]} |} in
  on_event "disconnect" "transport close" s = ([ELog "c1 disconnected"], Normal s).
Proof.
  intros s.
  apply (on_event_other_names (T := memory_transport) "disconnect" "transport close" s);
    discriminate.
Defined.
